(** * RWS audio container: record layouts and geometry resolution

    The repository describes the RenderWare stream ("RWS") container by a
    set of packed C structures ([#pragma pack(push,1)]).  This development
    embeds those declarations as data, computes their layout with the
    packing rule of the pragma, reads members out of raw byte buffers, and
    states the layout facts of the format over that embedding.  The last
    part models the geometry resolver of the decoder, which works on the
    segment and layer records declared here. *)

From Stdlib Require Import List NArith ZArith String Bool Lia.
From Stdlib.Strings Require Import Byte.
Import ListNotations.

Local Open Scope string_scope.
Local Open Scope N_scope.

(** ** C types of the members *)

(** The scalar types the structures use, fixed-length arrays
    ([uint8_t file_uuid[16]]) and the flexible array member that ends
    [RWS_DataChunk] ([uint8_t data[]]). *)
Inductive ctype : Type :=
| uint8_t
| uint16_t
| uint32_t
| int16_t
| array (elem : ctype) (len : N)
| flexible (elem : ctype).

Fixpoint ctype_eqb (a b : ctype) : bool :=
  match a, b with
  | uint8_t, uint8_t | uint16_t, uint16_t
  | uint32_t, uint32_t | int16_t, int16_t => true
  | array x n, array y m => ctype_eqb x y && (n =? m)
  | flexible x, flexible y => ctype_eqb x y
  | _, _ => false
  end.

(** [sizeof]: exact-width integer types have their width; an array is its
    elements laid end to end; a flexible array member adds nothing to the
    size of the structure that holds it. *)
Fixpoint sizeof (t : ctype) : N :=
  match t with
  | uint8_t => 1
  | uint16_t => 2
  | uint32_t => 4
  | int16_t => 2
  | array e n => n * sizeof e
  | flexible _ => 0
  end.

(** Natural alignment, before any packing pragma applies. *)
Fixpoint alignof (t : ctype) : N :=
  match t with
  | uint8_t => 1
  | uint16_t => 2
  | uint32_t => 4
  | int16_t => 2
  | array e _ => alignof e
  | flexible e => alignof e
  end.

Definition is_signed (t : ctype) : bool :=
  match t with int16_t => true | _ => false end.

Definition is_unsigned_scalar (t : ctype) : bool :=
  match t with uint8_t | uint16_t | uint32_t => true | _ => false end.

(** ** Structure declarations and their layout *)

Record member : Type := Member { mtype : ctype; mname : string }.

Record struct_decl : Type := Struct { sname : string; members : list member }.

(** [#pragma pack(push,1)] is in force for every declaration of the file. *)
Definition pack_value : N := 1.

Definition align_up (off a : N) : N := ((off + a - 1) / a) * a.

(** Under [#pragma pack(n)] a member is aligned to the smaller of [n] and
    its natural alignment. *)
Definition member_align (pack : N) (t : ctype) : N := N.min pack (alignof t).

(** Members are placed in declaration order, each at the first offset at or
    after the end of the previous one that satisfies its alignment. *)
Fixpoint layout_from (pack off : N) (ms : list member) : list (member * N) :=
  match ms with
  | [] => []
  | m :: rest =>
      let o := align_up off (member_align pack (mtype m)) in
      (m, o) :: layout_from pack (o + sizeof (mtype m)) rest
  end.

Fixpoint end_from (pack off : N) (ms : list member) : N :=
  match ms with
  | [] => off
  | m :: rest =>
      end_from pack
        (align_up off (member_align pack (mtype m)) + sizeof (mtype m)) rest
  end.

Definition struct_align (pack : N) (ms : list member) : N :=
  fold_right (fun m a => N.max (member_align pack (mtype m)) a) 1 ms.

Definition layout_with (pack : N) (s : struct_decl) : list (member * N) :=
  layout_from pack 0 (members s).

Definition sizeof_with (pack : N) (s : struct_decl) : N :=
  align_up (end_from pack 0 (members s)) (struct_align pack (members s)).

Definition layout (s : struct_decl) : list (member * N) :=
  layout_with pack_value s.

Definition sizeof_struct (s : struct_decl) : N := sizeof_with pack_value s.

Fixpoint find_member (name : string) (l : list (member * N))
  : option (member * N) :=
  match l with
  | [] => None
  | (m, o) :: rest =>
      if String.eqb (mname m) name then Some (m, o) else find_member name rest
  end.

Definition offsetof (s : struct_decl) (name : string) : option N :=
  option_map snd (find_member name (layout s)).

Definition typeof (s : struct_decl) (name : string) : option ctype :=
  option_map (fun p => mtype (fst p)) (find_member name (layout s)).

Definition member_names (s : struct_decl) : list string :=
  map mname (members s).

(** The layout as (name, offset, size) triples, in declaration order. *)
Definition layout_table (s : struct_decl) : list (string * N * N) :=
  map (fun p => (mname (fst p), snd p, sizeof (mtype (fst p)))) (layout s).

(** Names of the members of a given size. *)
Definition members_of_size (n : N) (s : struct_decl) : list string :=
  map mname (filter (fun m => sizeof (mtype m) =? n) (members s)).

(** The names [sub] occur among [l] in this order, other names possibly
    in between. *)
Fixpoint subsequence (sub l : list string) : bool :=
  match sub, l with
  | [], _ => true
  | _ :: _, [] => false
  | x :: sub', y :: l' =>
      if String.eqb x y then subsequence sub' l' else subsequence sub l'
  end.

(** ** The declarations of the source file *)

Definition RWS_FileHeader : struct_decl :=
  Struct "RWS_FileHeader"
    [ Member uint32_t "id";
      Member uint32_t "file_size";
      Member uint32_t "version" ].

Definition RWS_ChunkHeader : struct_decl :=
  Struct "RWS_ChunkHeader"
    [ Member uint32_t "id";
      Member uint32_t "size";
      Member uint32_t "version" ].

Definition RWS_HeaderBase : struct_decl :=
  Struct "RWS_HeaderBase"
    [ Member uint32_t "header_size_actual";
      Member uint32_t "section_size_1";
      Member uint32_t "section_size_2";
      Member uint32_t "section_size_3";
      Member uint32_t "config_1";
      Member uint32_t "config_2";
      Member uint32_t "zero_1";
      Member uint32_t "total_segments";
      Member uint32_t "config_3";
      Member uint32_t "total_layers";
      Member uint32_t "config_4";
      Member uint32_t "unknown_30";
      Member uint32_t "block_layers_size";
      Member uint32_t "data_offset";
      Member uint32_t "zero_2";
      Member (array uint8_t 16) "file_uuid" ].

Definition RWS_SegmentInfo : struct_decl :=
  Struct "RWS_SegmentInfo"
    [ Member uint32_t "unk_00";
      Member uint32_t "unk_04";
      Member uint32_t "unk_08";
      Member uint32_t "unk_0C";
      Member uint32_t "unk_10";
      Member uint32_t "unk_14";
      Member uint32_t "layers_size";
      Member uint32_t "data_offset" ].

Definition RWS_LayerInfo : struct_decl :=
  Struct "RWS_LayerInfo"
    [ Member uint32_t "unk_00";
      Member uint32_t "unk_04";
      Member uint32_t "zero_08";
      Member uint32_t "frame_hint";
      Member uint32_t "block_size_pad";
      Member uint32_t "unk_14";
      Member uint16_t "interleave";
      Member uint16_t "frame_size";
      Member uint32_t "unk_1C";
      Member uint32_t "block_size";
      Member uint32_t "layer_start" ].

Definition RWS_LayerConfig : struct_decl :=
  Struct "RWS_LayerConfig"
    [ Member uint32_t "sample_rate";
      Member uint32_t "unk_04";
      Member uint32_t "approx_size";
      Member uint16_t "bits_per_sample";
      Member uint8_t "channels";
      Member uint8_t "unk_0F";
      Member uint32_t "unk_10";
      Member uint32_t "unk_14";
      Member uint32_t "unk_18";
      Member uint32_t "codec_uuid_first";
      Member (array uint8_t 12) "codec_uuid_rest" ].

Definition RWS_DSPInfo : struct_decl :=
  Struct "RWS_DSPInfo"
    [ Member uint32_t "approx_samples";
      Member uint32_t "unk_04";
      Member (array uint8_t 0x14) "reserved";
      Member (array int16_t 16) "coefs";
      Member (array int16_t 16) "hist" ].

Definition RWS_DataChunk : struct_decl :=
  Struct "RWS_DataChunk"
    [ Member (flexible uint8_t) "data" ].

(** [RWS_HeaderBase] is "followed by padded string: file name": the name
    starts where the structure ends. *)
Definition file_name_offset : N := sizeof_struct RWS_HeaderBase.

Definition all_structs : list struct_decl :=
  [ RWS_FileHeader; RWS_ChunkHeader; RWS_HeaderBase; RWS_SegmentInfo;
    RWS_LayerInfo; RWS_LayerConfig; RWS_DSPInfo; RWS_DataChunk ].

(** ** Chunk identifiers *)

(** The identifiers the source gives in its comments: [0x0000080D] on the
    [id] member of [RWS_FileHeader], [0x0000080E] for the audio header
    chunk and [0x0000080F] for the data chunk. *)
Inductive chunk_kind : Type := FileChunk | AudioHeaderChunk | DataChunk.

Definition chunk_id (k : chunk_kind) : N :=
  match k with
  | FileChunk => 0x0000080D
  | AudioHeaderChunk => 0x0000080E
  | DataChunk => 0x0000080F
  end.

(** The structure that describes the start of each kind of chunk. *)
Definition chunk_struct (k : chunk_kind) : struct_decl :=
  match k with
  | FileChunk => RWS_FileHeader
  | AudioHeaderChunk => RWS_HeaderBase
  | DataChunk => RWS_DataChunk
  end.

Definition known_chunks : list chunk_kind :=
  [FileChunk; AudioHeaderChunk; DataChunk].

Definition chunk_kind_of (id : N) : option chunk_kind :=
  find (fun k => chunk_id k =? id) known_chunks.

(** ** Reading members out of a byte buffer *)

(** The structures overlay raw file bytes; the byte order of the multi-byte
    members is that of the machine reading them, so it is a parameter. *)
Inductive byte_order : Type := LittleEndian | BigEndian.

Fixpoint le_value (bs : list byte) : N :=
  match bs with
  | [] => 0
  | b :: rest => Byte.to_N b + 256 * le_value rest
  end.

Definition uint_value (o : byte_order) (bs : list byte) : N :=
  match o with
  | LittleEndian => le_value bs
  | BigEndian => le_value (rev bs)
  end.

(** Two's complement reading of the same bytes, for [int16_t]. *)
Definition sint_value (o : byte_order) (bs : list byte) : Z :=
  let u := Z.of_N (uint_value o bs) in
  let w := (8 * Z.of_nat (List.length bs))%Z in
  if (u <? 2 ^ (w - 1))%Z then u else (u - 2 ^ w)%Z.

Definition buffer_size (buf : list byte) : N := N.of_nat (List.length buf).

(** [len] bytes of [buf] from offset [off].  The structures are overlaid
    on buffers that hold them; a C overlay has no failure value, and
    reading past the end of the buffer is undefined there: [None] stands
    for that case. *)
Definition slice (off len : N) (buf : list byte) : option (list byte) :=
  if off + len <=? buffer_size buf
  then Some (firstn (N.to_nat len) (skipn (N.to_nat off) buf))
  else None.

(** The value of an unsigned scalar member of a structure overlaid on
    [buf]. *)
Definition read_uint (o : byte_order) (s : struct_decl) (name : string)
                     (buf : list byte) : option N :=
  match find_member name (layout s) with
  | Some (m, off) =>
      if is_unsigned_scalar (mtype m)
      then option_map (uint_value o) (slice off (sizeof (mtype m)) buf)
      else None
  | None => None
  end.

(** Element [i] of a member that is an array of signed integers.  An
    index past the array is not an element of the member (in C the access
    is undefined, and the compiled overlay would read the bytes that
    follow): the result is [None]. *)
Definition read_sint_elem (o : byte_order) (s : struct_decl) (name : string)
                          (i : N) (buf : list byte) : option Z :=
  match find_member name (layout s) with
  | Some (m, off) =>
      match mtype m with
      | array e n =>
          if is_signed e && (i <? n)
          then option_map (sint_value o)
                 (slice (off + i * sizeof e) (sizeof e) buf)
          else None
      | _ => None
      end
  | None => None
  end.

(** The bytes of a member, whatever its type. *)
Definition member_bytes (s : struct_decl) (name : string) (buf : list byte)
  : option (list byte) :=
  match find_member name (layout s) with
  | Some (m, off) => slice off (sizeof (mtype m)) buf
  | None => None
  end.

(** ** What the source says about member values *)

(** [file_size] is commented "size excluding first 0x0C bytes". *)
Definition FILE_SIZE_EXCLUDED : N := 0x0C.

Definition file_size_ok (o : byte_order) (file : list byte) : bool :=
  match read_uint o RWS_FileHeader "file_size" file with
  | Some n => n + FILE_SIZE_EXCLUDED =? buffer_size file
  | None => false
  end.

(** Three members are named for the value zero: [zero_1], [zero_2] and
    [zero_08].  The source has no code that checks them;
    [zero_members_hold] is the test that each such member reads 0. *)
Definition zero_members (s : struct_decl) : list (member * N) :=
  filter (fun p => String.prefix "zero_" (mname (fst p))) (layout s).

Definition zero_members_hold (o : byte_order) (s : struct_decl)
                             (buf : list byte) : bool :=
  forallb
    (fun p =>
       match slice (snd p) (sizeof (mtype (fst p))) buf with
       | Some bs => uint_value o bs =? 0
       | None => false
       end)
    (zero_members s).

(** ** Record values *)

Notation "'do' x <- e ; k" :=
  (match e with Some x => k | None => None end)
  (at level 10, x name, e at level 10, k at level 200,
   format "'[v' 'do'  x  <-  e ; '/' k ']'").

Module SegmentInfo.
Record t : Type := mk {
  unk_00 : N;
  unk_04 : N;
  unk_08 : N;
  unk_0C : N;
  unk_10 : N;
  unk_14 : N;
  layers_size : N;
  data_offset : N
}.

Definition of_bytes (o : byte_order) (buf : list byte) : option t :=
  let rd := fun name => read_uint o RWS_SegmentInfo name buf in
  do a <- rd "unk_00";
  do b <- rd "unk_04";
  do c <- rd "unk_08";
  do d <- rd "unk_0C";
  do e <- rd "unk_10";
  do f <- rd "unk_14";
  do g <- rd "layers_size";
  do h <- rd "data_offset";
  Some (mk a b c d e f g h).
End SegmentInfo.

Module LayerInfo.
Record t : Type := mk {
  unk_00 : N;
  unk_04 : N;
  zero_08 : N;
  frame_hint : N;
  block_size_pad : N;
  unk_14 : N;
  interleave : N;
  frame_size : N;
  unk_1C : N;
  block_size : N;
  layer_start : N
}.

Definition of_bytes (o : byte_order) (buf : list byte) : option t :=
  let rd := fun name => read_uint o RWS_LayerInfo name buf in
  do a <- rd "unk_00";
  do b <- rd "unk_04";
  do c <- rd "zero_08";
  do d <- rd "frame_hint";
  do e <- rd "block_size_pad";
  do f <- rd "unk_14";
  do g <- rd "interleave";
  do h <- rd "frame_size";
  do i <- rd "unk_1C";
  do j <- rd "block_size";
  do k <- rd "layer_start";
  Some (mk a b c d e f g h i j k).
End LayerInfo.

(** ** Geometry resolution *)

(** Modelled from the spec: the error taxonomy of the decoder, which is
    not among the source files.  [UnknownCodec] is the one non-fatal
    member. *)
Inductive Error : Type :=
| BadMagic
| SizeMismatch
| TruncatedStream
| BadNameEncoding
| GeometryOverflow
| UnexpectedChunk
| UnknownCodec.

Inductive Result (A : Type) : Type :=
| Ok (a : A)
| Err (e : Error).

Arguments Ok {A} a.
Arguments Err {A} e.

Definition bind {A B : Type} (r : Result A) (k : A -> Result B) : Result B :=
  match r with
  | Ok a => k a
  | Err e => Err e
  end.

(** Modelled from the spec: the entries of the resolver's index, absent
    from the source files.  An absolute byte range of the data chunk is
    [range_length] bytes from [range_start]. *)
Record ByteRange : Type := {
  range_start : N;
  range_length : N
}.

Definition range_end (r : ByteRange) : N := range_start r + range_length r.

Definition in_range (x : N) (r : ByteRange) : bool :=
  (range_start r <=? x) && (x <? range_end r).

(** Modelled from the spec: "an ordered index: segment -> ordered list of
    (layer index, absolute byte range, interleave unit, block_size,
    block_size_pad)"; the index type is absent from the source files. *)
Record ResolvedLayer : Type := {
  layer_index : nat;
  byte_range : ByteRange;
  interleave_unit : N;
  resolved_block_size : N;
  resolved_block_size_pad : N
}.

Record SegmentEntry : Type := {
  entry_segment : SegmentInfo.t;
  entry_layers : list ResolvedLayer
}.

Definition GeometryIndex : Type := list SegmentEntry.

(** Modelled from the spec: what the table parsers (absent from the source
    files) hand to the resolver: the segment records, the layer geometry
    records and the declared size of the data chunk. *)
Record ParsedTables : Type := {
  segments : list SegmentInfo.t;
  layers : list LayerInfo.t;
  data_chunk_size : N
}.

Definition total_length (rs : list ByteRange) : N :=
  fold_right (fun r acc => range_length r + acc) 0 rs.

(** Two ranges overlap when some byte lies in both. *)
Definition overlaps (a b : ByteRange) : bool :=
  N.max (range_start a) (range_start b) <? N.min (range_end a) (range_end b).

Fixpoint pairwise_disjoint (rs : list ByteRange) : bool :=
  match rs with
  | [] => true
  | r :: rest =>
      forallb (fun r' => negb (overlaps r r')) rest && pairwise_disjoint rest
  end.

(** The number of (byte, range) incidences over the [n] bytes from [lo]:
    each byte counts once for every range that holds it. *)
Fixpoint covered_count (rs : list ByteRange) (lo : N) (n : nat) : nat :=
  match n with
  | O => O
  | S k =>
      (covered_count rs lo k
       + List.length (filter (in_range (lo + N.of_nat k)) rs))%nat
  end.

(** One segment owning two layers of two blocks each, for the examples. *)
Definition example_tables : ParsedTables :=
  {| segments := [ SegmentInfo.mk 0 0 0 0 0 0 48 16 ];
     layers :=
       [ LayerInfo.mk 0 0 0 0 16 0 8 0 0 16 0;
         LayerInfo.mk 0 0 0 0 8 0 8 0 0 8 32 ];
     data_chunk_size := 64 |}.

(** The same layers followed by a second segment of one layer. *)
Definition example_two_segments : ParsedTables :=
  {| segments :=
       [ SegmentInfo.mk 0 0 0 0 0 0 48 16;
         SegmentInfo.mk 0 0 0 0 0 0 32 64 ];
     layers :=
       [ LayerInfo.mk 0 0 0 0 16 0 8 0 0 16 0;
         LayerInfo.mk 0 0 0 0 8 0 8 0 0 8 32;
         LayerInfo.mk 0 0 0 0 16 0 8 0 0 16 0 ];
     data_chunk_size := 96 |}.

Section Resolver.

(** The spec gives the length of a layer's byte range as "block count x
    block_size_pad".  No record declared in the source stores a block
    count and the spec does not say where it comes from, so the block
    count of the layer at each table index is a parameter. *)
Variable block_count : nat -> N.

(** Modelled from the spec: an entry of the GeometryResolver's index (the
    resolver is not among the source files): "(layer index, absolute byte
    range, interleave unit, block_size, block_size_pad)", the range being
    "segment.data_offset + layer_start, length = block count x
    block_size_pad". *)
Definition resolve_layer (seg : SegmentInfo.t) (idx : nat)
                         (l : LayerInfo.t) : ResolvedLayer :=
  {| layer_index := idx;
     byte_range :=
       {| range_start :=
            SegmentInfo.data_offset seg + LayerInfo.layer_start l;
          range_length := block_count idx * LayerInfo.block_size_pad l |};
     interleave_unit := LayerInfo.interleave l;
     resolved_block_size := LayerInfo.block_size l;
     resolved_block_size_pad := LayerInfo.block_size_pad l |}.

Fixpoint resolve_all (seg : SegmentInfo.t) (idx : nat)
                     (run : list LayerInfo.t) : list ResolvedLayer :=
  match run with
  | [] => []
  | l :: rest => resolve_layer seg idx l :: resolve_all seg (S idx) rest
  end.

(** Modelled from the spec: how the GeometryResolver (not among the source
    files) finds the run of a segment: "Assigns each contiguous run of
    LayerGeometry/LayerConfig pairs to its owning SegmentRecord by
    accumulating layer_start offsets until the running total would exceed
    the current segment's layers_size, then advancing to the next
    segment".  [total] is the running total of the layer_start offsets
    taken so far; the result is the run and the layers left for the
    following segments. *)
Fixpoint take_run (seg : SegmentInfo.t) (total : N) (ls : list LayerInfo.t)
  : list LayerInfo.t * list LayerInfo.t :=
  match ls with
  | [] => ([], [])
  | l :: rest =>
      if SegmentInfo.layers_size seg <? total + LayerInfo.layer_start l
      then ([], ls)
      else
        let '(run, rem) := take_run seg (total + LayerInfo.layer_start l) rest
        in (l :: run, rem)
  end.

(** Modelled from the spec: the two failure conditions of the
    GeometryResolver.  A range "exceeds the data chunk's declared size"
    when it ends past it; a run "exactly partition[s] its segment's
    layers_size (no gap, no overlap)" when every range lies in the
    segment's region, no two ranges overlap, and the lengths add up to
    layers_size. *)
Definition within_chunk (dsize : N) (r : ByteRange) : bool :=
  range_end r <=? dsize.

Definition inside_segment (seg : SegmentInfo.t) (r : ByteRange) : bool :=
  (SegmentInfo.data_offset seg <=? range_start r)
  && (range_end r
      <=? SegmentInfo.data_offset seg + SegmentInfo.layers_size seg).

Definition exactly_partitions (seg : SegmentInfo.t) (rs : list ByteRange)
  : bool :=
  forallb (inside_segment seg) rs
  && pairwise_disjoint rs
  && (total_length rs =? SegmentInfo.layers_size seg).

(** Modelled from the spec: the GeometryResolver on one segment.  It takes
    the run, computes the absolute ranges, and "fails with
    GeometryOverflow" on either condition; otherwise it returns the
    segment's entry, the index of the next layer and the layers left. *)
Definition resolve_segment (dsize : N) (seg : SegmentInfo.t) (idx : nat)
                           (ls : list LayerInfo.t)
  : Result (SegmentEntry * nat * list LayerInfo.t) :=
  let '(run, rem) := take_run seg 0 ls in
  let rs := resolve_all seg idx run in
  if negb (forallb (within_chunk dsize) (map byte_range rs)) then
    Err GeometryOverflow
  else if negb (exactly_partitions seg (map byte_range rs)) then
    Err GeometryOverflow
  else
    Ok ({| entry_segment := seg; entry_layers := rs |},
        (idx + List.length run)%nat, rem).

(** Modelled from the spec: the GeometryResolver's walk over the segment
    table, not among the source files.  The segments are served in table
    order, each taking its run of layer records; a layer record left when
    the segments are exhausted has no containing region and is reported
    as [GeometryOverflow]. *)
Fixpoint resolve_segments (dsize : N) (segs : list SegmentInfo.t)
                          (idx : nat) (ls : list LayerInfo.t)
  : Result GeometryIndex :=
  match segs with
  | [] =>
      match ls with
      | [] => Ok []
      | _ :: _ => Err GeometryOverflow
      end
  | seg :: segs' =>
      bind (resolve_segment dsize seg idx ls)
           (fun '(e, idx', rem) =>
              bind (resolve_segments dsize segs' idx' rem)
                   (fun es => Ok (e :: es)))
  end.

Definition resolve_geometry (t : ParsedTables) : Result GeometryIndex :=
  resolve_segments (data_chunk_size t) (segments t) 0 (layers t).

(** *** What a resolved index promises *)

(** The ranges [rs] partition the [len] bytes from [lo]: each range lies
    inside the region, every byte of the region is in exactly one range
    (no gap, no overlap), and the lengths add up to [len]. *)
Definition partitions (lo len : N) (rs : list ByteRange) : Prop :=
  (forall r, In r rs -> lo <= range_start r /\ range_end r <= lo + len) /\
  (forall x, lo <= x < lo + len ->
             List.length (filter (in_range x) rs) = 1%nat) /\
  total_length rs = len.

(** The range lies within [0, dsize): every byte of it is below
    [dsize]. *)
Definition within_data (dsize : N) (r : ByteRange) : Prop :=
  range_end r <= dsize /\ forall x, in_range x r = true -> x < dsize.

Definition valid_entry (dsize : N) (e : SegmentEntry) : Prop :=
  partitions (SegmentInfo.data_offset (entry_segment e))
             (SegmentInfo.layers_size (entry_segment e))
             (map byte_range (entry_layers e)) /\
  Forall (fun r => within_data dsize (byte_range r)) (entry_layers e).

(** A resolved layer is the layer record at its index: its range starts
    at segment.data_offset + layer_start and is block count x
    block_size_pad bytes long, and it carries the record's interleave
    unit, block_size and block_size_pad. *)
Definition resolved_from (t : ParsedTables) (e : SegmentEntry)
                         (r : ResolvedLayer) : Prop :=
  exists l,
    nth_error (layers t) (layer_index r) = Some l /\
    range_start (byte_range r)
      = SegmentInfo.data_offset (entry_segment e) + LayerInfo.layer_start l /\
    range_length (byte_range r)
      = block_count (layer_index r) * LayerInfo.block_size_pad l /\
    interleave_unit r = LayerInfo.interleave l /\
    resolved_block_size r = LayerInfo.block_size l /\
    resolved_block_size_pad r = LayerInfo.block_size_pad l.

Definition valid_index (t : ParsedTables) (idx : GeometryIndex) : Prop :=
  map entry_segment idx = segments t /\
  map layer_index (flat_map entry_layers idx)
    = seq 0 (List.length (layers t)) /\
  Forall (fun e => Forall (resolved_from t e) (entry_layers e)) idx /\
  Forall (valid_entry (data_chunk_size t)) idx.

End Resolver.

Section Decoder.

(** The block count of a layer may depend on anything in the input: it is
    given the buffer, the parsed tables and the index of the layer. *)
Variable block_count_of : list byte -> ParsedTables -> nat -> N.

(** Modelled from the spec: the entry point [decode], not among the source
    files.  The stages before the resolver (chunk walking, header and
    table parsing) and after it (data extraction) are parameters; any
    error of a stage aborts the whole decode. *)
Variable DecodedContainer : Type.
Variable parse_tables : list byte -> Result ParsedTables.
Variable extract :
  list byte -> ParsedTables -> GeometryIndex -> Result DecodedContainer.

Definition decode (buf : list byte) : Result DecodedContainer :=
  bind (parse_tables buf)
       (fun t =>
          bind (resolve_geometry (block_count_of buf t) t)
               (fun idx => extract buf t idx)).

End Decoder.

(** Stages for the examples: every layer has two blocks, the tables are
    [example_tables] whatever the buffer, and extraction returns the index
    it is given. *)
Definition example_block_count (buf : list byte) (t : ParsedTables)
                               (idx : nat) : N := 2.

Definition example_parse (buf : list byte) : Result ParsedTables :=
  Ok example_tables.

Definition example_extract (buf : list byte) (t : ParsedTables)
                           (idx : GeometryIndex) : Result GeometryIndex :=
  Ok idx.

(** The index expected for [example_tables]: layers 0 and 1 at bytes
    [16, 48) and [48, 64) of the data chunk. *)
Definition example_index : GeometryIndex :=
  [ {| entry_segment := SegmentInfo.mk 0 0 0 0 0 0 48 16;
       entry_layers :=
         [ {| layer_index := 0;
              byte_range := {| range_start := 16; range_length := 32 |};
              interleave_unit := 8;
              resolved_block_size := 16;
              resolved_block_size_pad := 16 |};
           {| layer_index := 1;
              byte_range := {| range_start := 48; range_length := 16 |};
              interleave_unit := 8;
              resolved_block_size := 8;
              resolved_block_size_pad := 8 |} ] |} ].

(** ** Packed layout, member slices and names that carry offsets *)

(** The layout with no padding at all: each member starts where the
    previous one ends. *)
Fixpoint packed_layout (off : N) (ms : list member) : list (member * N) :=
  match ms with
  | [] => []
  | m :: rest => (m, off) :: packed_layout (off + sizeof (mtype m)) rest
  end.

Definition members_size (ms : list member) : N :=
  fold_right (fun m acc => sizeof (mtype m) + acc) 0 ms.

(** The bytes of each member of a structure overlaid on [buf], in
    declaration order. *)
Definition member_slices (s : struct_decl) (buf : list byte)
  : list (list byte) :=
  map (fun p => firstn (N.to_nat (sizeof (mtype (fst p))))
                       (skipn (N.to_nat (snd p)) buf))
      (layout s).

(** Members such as [unk_0C], [zero_08] or [unknown_30] end in an
    underscore and two upper-case hexadecimal digits. *)
Definition hex_digit (c : Ascii.ascii) : option N :=
  let n := Ascii.N_of_ascii c in
  if (48 <=? n) && (n <=? 57) then Some (n - 48)
  else if (65 <=? n) && (n <=? 70) then Some (n - 55)
  else None.

Fixpoint named_offset (name : string) : option N :=
  match name with
  | EmptyString => None
  | String c rest =>
      match rest with
      | String h (String l EmptyString) =>
          if Ascii.N_of_ascii c =? 95 (* underscore *)
          then match hex_digit h, hex_digit l with
               | Some a, Some b => Some (16 * a + b)
               | _, _ => None
               end
          else named_offset rest
      | _ => named_offset rest
      end
  end.

(** The members whose name ends in two hexadecimal digits, as (name,
    offset in the layout, number in the name). *)
Definition offset_named_members (s : struct_decl) : list (string * N * N) :=
  flat_map (fun p => match named_offset (mname (fst p)) with
                     | Some n => [(mname (fst p), snd p, n)]
                     | None => []
                     end)
           (layout s).

(** * Properties *)

(** ** Reading bytes *)

Lemma le_value_bound (bs : list byte) :
  le_value bs < 256 ^ N.of_nat (List.length bs).
Proof.
  induction bs as [|b rest IH]; simpl List.length.
  - simpl. lia.
  - rewrite Nat2N.inj_succ, N.pow_succ_r'.
    cbn [le_value]. pose proof (Byte.to_N_bounded b). lia.
Qed.

Lemma uint_value_bound (o : byte_order) (bs : list byte) :
  uint_value o bs < 256 ^ N.of_nat (List.length bs).
Proof.
  destruct o; simpl.
  - apply le_value_bound.
  - rewrite <- (length_rev bs). apply le_value_bound.
Qed.

Lemma slice_length (off len : N) (buf bs : list byte) :
  slice off len buf = Some bs -> N.of_nat (List.length bs) = len.
Proof.
  unfold slice, buffer_size.
  destruct (off + len <=? N.of_nat (List.length buf)) eqn:E; [|discriminate].
  intros [= <-]. apply N.leb_le in E.
  rewrite length_firstn, length_skipn. lia.
Qed.

Lemma slice_some (off len : N) (buf : list byte) :
  off + len <= buffer_size buf -> exists bs, slice off len buf = Some bs.
Proof.
  intros H. unfold slice. apply N.leb_le in H. rewrite H. eauto.
Qed.

(** A member read as an unsigned scalar is below 2^(8 * size of its
    type). *)
Lemma read_uint_bound (o : byte_order) (s : struct_decl) (name : string)
                      (buf : list byte) (v : N) :
  read_uint o s name buf = Some v ->
  exists t, typeof s name = Some t /\ v < 256 ^ sizeof t.
Proof.
  unfold read_uint, typeof.
  destruct (find_member name (layout s)) as [[m off]|]; [|discriminate].
  destruct (is_unsigned_scalar (mtype m)); [|discriminate].
  destruct (slice off (sizeof (mtype m)) buf) as [bs|] eqn:E; [|discriminate].
  intros [= <-]. exists (mtype m). split; [reflexivity|].
  rewrite <- (slice_length _ _ _ _ E). apply uint_value_bound.
Qed.

Lemma sint_value_range (o : byte_order) (bs : list byte) :
  bs <> [] ->
  (- 2 ^ (8 * Z.of_nat (List.length bs) - 1) <= sint_value o bs
   < 2 ^ (8 * Z.of_nat (List.length bs) - 1))%Z.
Proof.
  intros Hne. unfold sint_value.
  pose proof (uint_value_bound o bs) as Hb.
  assert (Hlen : (0 < Z.of_nat (List.length bs))%Z)
    by (destruct bs; [congruence | simpl List.length; lia]).
  set (w := (8 * Z.of_nat (List.length bs))%Z) in *.
  assert (Hu : (0 <= Z.of_N (uint_value o bs) < 2 ^ w)%Z).
  { split; [lia|].
    apply N2Z.inj_lt in Hb. rewrite N2Z.inj_pow in Hb.
    rewrite nat_N_Z in Hb. change (Z.of_N 256) with (2 ^ 8)%Z in Hb.
    rewrite <- Z.pow_mul_r in Hb by lia. exact Hb. }
  assert (Hw : (2 ^ w = 2 * 2 ^ (w - 1))%Z).
  { rewrite <- Z.pow_succ_r by lia. f_equal. lia. }
  destruct (Z.of_N (uint_value o bs) <? 2 ^ (w - 1))%Z eqn:E.
  - apply Z.ltb_lt in E. lia.
  - apply Z.ltb_ge in E. lia.
Qed.

(** An element of an array of signed integers is in the range of the
    element type. *)
Lemma read_sint_elem_range (o : byte_order) (s : struct_decl) (name : string)
                           (i : N) (buf : list byte) (v : Z) :
  read_sint_elem o s name i buf = Some v ->
  exists e n, typeof s name = Some (array e n) /\ i < n /\
              (2 * v < 256 ^ Z.of_N (sizeof e))%Z /\
              (- 256 ^ Z.of_N (sizeof e) <= 2 * v)%Z.
Proof.
  unfold read_sint_elem, typeof.
  destruct (find_member name (layout s)) as [[m off]|]; [|discriminate].
  cbn [option_map fst].
  destruct (mtype m) as [| | | |e n|]; try discriminate.
  destruct (is_signed e) eqn:Es; [|discriminate]. cbn [andb].
  destruct (i <? n) eqn:Ei; [|discriminate].
  destruct (slice (off + i * sizeof e) (sizeof e) buf) as [bs|] eqn:E;
    [|discriminate].
  intros [= <-]. exists e, n. split; [reflexivity|].
  apply N.ltb_lt in Ei. split; [exact Ei|].
  apply slice_length in E.
  assert (Hne : bs <> []).
  { intros ->. destruct e; cbn in Es, E; discriminate. }
  pose proof (sint_value_range o bs Hne) as Hr.
  assert (Hl : (0 < Z.of_nat (List.length bs))%Z)
    by (destruct bs; [congruence | simpl List.length; lia]).
  assert (Hp : (256 ^ Z.of_N (sizeof e)
                = 2 * 2 ^ (8 * Z.of_nat (List.length bs) - 1))%Z).
  { rewrite <- E, nat_N_Z. change 256%Z with (2 ^ 8)%Z.
    rewrite <- Z.pow_mul_r by lia. rewrite <- Z.pow_succ_r by lia.
    f_equal. lia. }
  rewrite Hp. lia.
Qed.

(** ** Record layouts *)

(** C1.  The fixed preamble of the audio header ([RWS_HeaderBase]) is
    exactly 76 bytes: fifteen consecutive 4-byte members followed by the
    16-byte [file_uuid].  Header size, the three section sizes, two config
    words, the segment count, the layer count, further config words,
    [block_layers_size] and [data_offset] come in this order, and the
    padded file name begins right after the UUID. *)
Theorem header_base_layout :
  sizeof_struct RWS_HeaderBase = 76 /\
  layout_table RWS_HeaderBase =
    [ ("header_size_actual", 0, 4); ("section_size_1", 4, 4);
      ("section_size_2", 8, 4); ("section_size_3", 12, 4);
      ("config_1", 16, 4); ("config_2", 20, 4); ("zero_1", 24, 4);
      ("total_segments", 28, 4); ("config_3", 32, 4);
      ("total_layers", 36, 4); ("config_4", 40, 4); ("unknown_30", 44, 4);
      ("block_layers_size", 48, 4); ("data_offset", 52, 4);
      ("zero_2", 56, 4); ("file_uuid", 60, 16) ] /\
  (exists words,
      members RWS_HeaderBase
        = (words ++ [Member (array uint8_t 16) "file_uuid"])%list /\
      List.length words = 15%nat /\
      Forall (fun m => mtype m = uint32_t) words) /\
  subsequence
    [ "header_size_actual";
      "section_size_1"; "section_size_2"; "section_size_3";
      "config_1"; "config_2";
      "total_segments"; "total_layers";
      "config_4"; "unknown_30";
      "block_layers_size"; "data_offset"; "file_uuid" ]
    (member_names RWS_HeaderBase) = true /\
  offsetof RWS_HeaderBase "file_uuid" = Some 60 /\
  file_name_offset = 60 + 16.
Proof.
  repeat split; try reflexivity.
  exists (firstn 15 (members RWS_HeaderBase)).
  repeat split; try reflexivity.
  cbn. repeat constructor.
Qed.

(** C2.  The DSP extension record ([RWS_DSPInfo]) is exactly 92 bytes: two
    4-byte members, [approx_samples] first, 20 reserved bytes, then 16
    signed 16-bit coefficients and 16 signed 16-bit history values; the
    coefficient table starts at byte 28.  Every coefficient or history
    value read from a record is in the signed 16-bit range. *)
Theorem dsp_info_layout :
  sizeof_struct RWS_DSPInfo = 92 /\
  layout_table RWS_DSPInfo =
    [ ("approx_samples", 0, 4); ("unk_04", 4, 4); ("reserved", 8, 20);
      ("coefs", 28, 32); ("hist", 60, 32) ] /\
  map mtype (members RWS_DSPInfo) =
    [ uint32_t; uint32_t; array uint8_t 20;
      array int16_t 16; array int16_t 16 ] /\
  offsetof RWS_DSPInfo "coefs" = Some 28 /\
  (forall o name i buf v,
      In name ["coefs"; "hist"] ->
      read_sint_elem o RWS_DSPInfo name i buf = Some v ->
      i < 16 /\ (- 2 ^ 15 <= v < 2 ^ 15)%Z).
Proof.
  repeat split; try reflexivity;
    destruct (read_sint_elem_range _ _ _ _ _ _ H0) as (e & n & Ht & Hi & Hv);
    destruct H as [<-|[<-|[]]];
    cbv in Ht; injection Ht as <- <-;
    try exact Hi; change (256 ^ Z.of_N (sizeof int16_t))%Z with 65536%Z in Hv;
    change (2 ^ 15)%Z with 32768%Z; lia.
Qed.

(** C3.  A layer geometry record ([RWS_LayerInfo]) is exactly 40 bytes.
    [interleave] and [frame_size] are its only 2-byte members, so their
    values are below 2^16; all other members are 4 bytes, among them
    [frame_hint], [block_size_pad], [block_size] and [layer_start], which
    is the last member. *)
Theorem layer_info_layout :
  sizeof_struct RWS_LayerInfo = 40 /\
  layout_table RWS_LayerInfo =
    [ ("unk_00", 0, 4); ("unk_04", 4, 4); ("zero_08", 8, 4);
      ("frame_hint", 12, 4); ("block_size_pad", 16, 4); ("unk_14", 20, 4);
      ("interleave", 24, 2); ("frame_size", 26, 2); ("unk_1C", 28, 4);
      ("block_size", 32, 4); ("layer_start", 36, 4) ] /\
  members_of_size 2 RWS_LayerInfo = ["interleave"; "frame_size"] /\
  members_of_size 4 RWS_LayerInfo =
    [ "unk_00"; "unk_04"; "zero_08"; "frame_hint"; "block_size_pad";
      "unk_14"; "unk_1C"; "block_size"; "layer_start" ] /\
  last (member_names RWS_LayerInfo) "" = "layer_start" /\
  (forall o buf l,
      LayerInfo.of_bytes o buf = Some l ->
      LayerInfo.interleave l < 2 ^ 16 /\ LayerInfo.frame_size l < 2 ^ 16).
Proof.
  repeat split; try reflexivity;
    unfold LayerInfo.of_bytes in H;
    repeat match type of H with
      | match ?r with Some _ => _ | None => _ end = _ =>
          let E := fresh "E" in destruct r eqn:E; [|discriminate]
      end;
    injection H as <-; cbn [LayerInfo.interleave LayerInfo.frame_size].
  - destruct (read_uint_bound _ _ _ _ _ E5) as (t & Ht & Hb).
    cbv in Ht. injection Ht as <-. exact Hb.
  - destruct (read_uint_bound _ _ _ _ _ E6) as (t & Ht & Hb).
    cbv in Ht. injection Ht as <-. exact Hb.
Qed.

(** C4.  A layer config record ([RWS_LayerConfig]) is exactly 44 bytes:
    [sample_rate] and [approx_size] are 4-byte members, [bits_per_sample]
    a 2-byte member, [channels] a 1-byte member, and the codec UUID is a
    32-bit word followed by 12 bytes, 128 bits together, which end the
    record. *)
Theorem layer_config_layout :
  sizeof_struct RWS_LayerConfig = 44 /\
  layout_table RWS_LayerConfig =
    [ ("sample_rate", 0, 4); ("unk_04", 4, 4); ("approx_size", 8, 4);
      ("bits_per_sample", 12, 2); ("channels", 14, 1); ("unk_0F", 15, 1);
      ("unk_10", 16, 4); ("unk_14", 20, 4); ("unk_18", 24, 4);
      ("codec_uuid_first", 28, 4); ("codec_uuid_rest", 32, 12) ] /\
  typeof RWS_LayerConfig "sample_rate" = Some uint32_t /\
  typeof RWS_LayerConfig "approx_size" = Some uint32_t /\
  typeof RWS_LayerConfig "bits_per_sample" = Some uint16_t /\
  typeof RWS_LayerConfig "channels" = Some uint8_t /\
  typeof RWS_LayerConfig "codec_uuid_first" = Some uint32_t /\
  typeof RWS_LayerConfig "codec_uuid_rest" = Some (array uint8_t 12) /\
  8 * (sizeof uint32_t + sizeof (array uint8_t 12)) = 128 /\
  offsetof RWS_LayerConfig "codec_uuid_rest"
    = Some (28 + sizeof uint32_t) /\
  32 + sizeof (array uint8_t 12) = sizeof_struct RWS_LayerConfig.
Proof. repeat split; reflexivity. Qed.

(** C5.  A segment record ([RWS_SegmentInfo]) is exactly 32 bytes, eight
    consecutive 4-byte members; the last two are [layers_size] and
    [data_offset], the six before them are unnamed unknowns. *)
Theorem segment_info_layout :
  sizeof_struct RWS_SegmentInfo = 32 /\
  layout_table RWS_SegmentInfo =
    [ ("unk_00", 0, 4); ("unk_04", 4, 4); ("unk_08", 8, 4);
      ("unk_0C", 12, 4); ("unk_10", 16, 4); ("unk_14", 20, 4);
      ("layers_size", 24, 4); ("data_offset", 28, 4) ] /\
  map mtype (members RWS_SegmentInfo) = repeat uint32_t 8 /\
  skipn 6 (member_names RWS_SegmentInfo) = ["layers_size"; "data_offset"] /\
  forallb (String.prefix "unk_") (firstn 6 (member_names RWS_SegmentInfo))
    = true.
Proof. repeat split; reflexivity. Qed.

(** C6.  The file header and the chunk header are 12 bytes each, three
    4-byte members in the order id, size, version; the [file_size] of a
    file counts the bytes of the file after the 12 bytes of the file
    header. *)
Theorem file_and_chunk_header_layout :
  sizeof_struct RWS_FileHeader = 12 /\
  sizeof_struct RWS_ChunkHeader = 12 /\
  layout_table RWS_FileHeader =
    [("id", 0, 4); ("file_size", 4, 4); ("version", 8, 4)] /\
  layout_table RWS_ChunkHeader =
    [("id", 0, 4); ("size", 4, 4); ("version", 8, 4)] /\
  FILE_SIZE_EXCLUDED = sizeof_struct RWS_FileHeader /\
  (forall o file,
      file_size_ok o file = true ->
      read_uint o RWS_FileHeader "file_size" file
        = Some (buffer_size
                  (skipn (N.to_nat (sizeof_struct RWS_FileHeader)) file))).
Proof.
  repeat split; try reflexivity.
  intros o file. unfold file_size_ok.
  destruct (read_uint o RWS_FileHeader "file_size" file) as [n|];
    [|discriminate].
  intros H. apply N.eqb_eq in H. f_equal.
  unfold buffer_size in *. rewrite length_skipn.
  change (sizeof_struct RWS_FileHeader) with 12.
  change FILE_SIZE_EXCLUDED with 12 in H. lia.
Qed.

(** C9.  The three known chunk identifiers are the consecutive 32-bit
    values 0x0000080D (file header), 0x0000080E (audio header chunk) and
    0x0000080F (data chunk). *)
Theorem chunk_ids_consecutive :
  map (fun k => (sname (chunk_struct k), chunk_id k)) known_chunks =
    [ ("RWS_FileHeader", 0x0000080D); ("RWS_HeaderBase", 0x0000080E);
      ("RWS_DataChunk", 0x0000080F) ] /\
  chunk_id AudioHeaderChunk = chunk_id FileChunk + 1 /\
  chunk_id DataChunk = chunk_id AudioHeaderChunk + 1 /\
  (forall k, chunk_id k < 2 ^ (8 * sizeof uint32_t)) /\
  (forall k, chunk_kind_of (chunk_id k) = Some k) /\
  typeof RWS_FileHeader "id" = Some uint32_t /\
  typeof RWS_ChunkHeader "id" = Some uint32_t.
Proof.
  repeat split; try reflexivity; destruct k; reflexivity.
Qed.

(** X5.  No member of these structures would be moved by natural
    alignment: offsets and sizes are the same under pack 1, 2, 4 and 8. *)
Lemma layout_pack_independent :
  forall pack s,
    In pack [1; 2; 4; 8] -> In s all_structs ->
    layout_with pack s = layout s /\ sizeof_with pack s = sizeof_struct s.
Proof.
  intros pack s Hp Hs. cbn [In all_structs] in Hp, Hs.
  repeat (destruct Hp as [<-|Hp]; [|]); try contradiction;
    repeat (destruct Hs as [<-|Hs]; [|]); try contradiction;
    split; reflexivity.
Qed.

(** ** Witnesses on concrete records *)

Lemma dsp_info_layout_witness :
  In "coefs" ["coefs"; "hist"] /\
  read_sint_elem LittleEndian RWS_DSPInfo "coefs" 3 (repeat xff 92)
    = Some (-1)%Z /\
  3 < 16 /\ (- 2 ^ 15 <= -1 < 2 ^ 15)%Z.
Proof.
  split; [left; reflexivity|]. split; [reflexivity|].
  apply (proj2 (proj2 (proj2 (proj2 dsp_info_layout)))
           LittleEndian "coefs" 3 (repeat xff 92) (-1)%Z).
  - left; reflexivity.
  - reflexivity.
Defined.

Lemma layer_info_layout_witness :
  LayerInfo.of_bytes BigEndian (repeat x01 40)
    = Some (LayerInfo.mk 16843009 16843009 16843009 16843009 16843009
              16843009 257 257 16843009 16843009 16843009) /\
  257 < 2 ^ 16 /\ 257 < 2 ^ 16.
Proof.
  split; [reflexivity|].
  apply (proj2 (proj2 (proj2 (proj2 (proj2 layer_info_layout))))
           BigEndian (repeat x01 40)
           (LayerInfo.mk 16843009 16843009 16843009 16843009 16843009
              16843009 257 257 16843009 16843009 16843009)).
  reflexivity.
Defined.

Lemma file_and_chunk_header_layout_witness :
  file_size_ok LittleEndian
    [x0d; x08; x00; x00; x04; x00; x00; x00; x00; x00; x00; x00;
     xaa; xbb; xcc; xdd] = true /\
  read_uint LittleEndian RWS_FileHeader "file_size"
    [x0d; x08; x00; x00; x04; x00; x00; x00; x00; x00; x00; x00;
     xaa; xbb; xcc; xdd] = Some 4.
Proof.
  split; [reflexivity|].
  apply (proj2 (proj2 (proj2 (proj2 (proj2 file_and_chunk_header_layout))))
           LittleEndian
           [x0d; x08; x00; x00; x04; x00; x00; x00; x00; x00; x00; x00;
            xaa; xbb; xcc; xdd]).
  reflexivity.
Defined.

(** ** Disjoint ranges that fill a region partition it *)

Lemma overlap_free_excludes (x : N) (r r' : ByteRange) :
  in_range x r = true -> overlaps r r' = false -> in_range x r' = false.
Proof.
  unfold in_range, overlaps. intros Hin Hov.
  apply andb_prop in Hin as [H1 H2].
  apply N.leb_le in H1. apply N.ltb_lt in H2. apply N.ltb_ge in Hov.
  destruct (N.leb_spec (range_start r') x) as [Hs|Hs]; [|reflexivity].
  destruct (N.ltb_spec x (range_end r')) as [He|He]; [|reflexivity].
  exfalso. lia.
Qed.

Lemma disjoint_count_le_1 (rs : list ByteRange) (x : N) :
  pairwise_disjoint rs = true ->
  (List.length (filter (in_range x) rs) <= 1)%nat.
Proof.
  induction rs as [|r rest IH]; cbn [pairwise_disjoint filter List.length].
  - lia.
  - intros H. apply andb_prop in H as [Hr Hrest].
    destruct (in_range x r) eqn:E; [|apply IH; exact Hrest].
    assert (Hnone : filter (in_range x) rest = []).
    { clear IH Hrest. induction rest as [|r' rest' IH']; [reflexivity|].
      cbn [forallb] in Hr. apply andb_prop in Hr as [Hr' Hrest'].
      apply negb_true_iff in Hr'. cbn [filter].
      rewrite (overlap_free_excludes _ _ _ E Hr'). apply IH'. exact Hrest'. }
    rewrite Hnone. cbn. lia.
Qed.

Lemma covered_count_cons (r : ByteRange) (rs : list ByteRange) (lo : N)
                         (n : nat) :
  covered_count (r :: rs) lo n
  = (covered_count [r] lo n + covered_count rs lo n)%nat.
Proof.
  induction n as [|k IH]; cbn [covered_count filter]; [reflexivity|].
  rewrite IH. destruct (in_range (lo + N.of_nat k) r); cbn [List.length]; lia.
Qed.

Lemma covered_count_single (r : ByteRange) (lo : N) (n : nat) :
  lo <= range_start r ->
  covered_count [r] lo n
  = N.to_nat (N.min (range_end r) (lo + N.of_nat n)
              - N.min (range_start r) (lo + N.of_nat n)).
Proof.
  intros Hlo. induction n as [|k IH]; cbn [covered_count filter].
  - unfold range_end. lia.
  - rewrite IH. unfold in_range, range_end.
    destruct (N.leb_spec (range_start r) (lo + N.of_nat k));
      destruct (N.ltb_spec (lo + N.of_nat k)
                           (range_start r + range_length r));
      cbn [andb List.length]; lia.
Qed.

Lemma covered_count_all (rs : list ByteRange) (lo : N) (n : nat) :
  (forall r, In r rs ->
             lo <= range_start r /\ range_end r <= lo + N.of_nat n) ->
  covered_count rs lo n = N.to_nat (total_length rs).
Proof.
  induction rs as [|r rest IH]; intros H.
  - change (total_length []) with 0. clear H.
    induction n as [|k IHk]; cbn [covered_count filter List.length]; lia.
  - destruct (H r (or_introl eq_refl)) as [H1 H2].
    rewrite covered_count_cons, (covered_count_single _ _ _ H1).
    rewrite IH by (intros r' Hr'; apply H; now right).
    cbn [total_length fold_right]. fold (total_length rest).
    unfold range_end in *. lia.
Qed.

Lemma covered_count_full (rs : list ByteRange) (lo : N) (n : nat) :
  (forall x, (List.length (filter (in_range x) rs) <= 1)%nat) ->
  (covered_count rs lo n <= n)%nat /\
  (covered_count rs lo n = n ->
   forall k, (k < n)%nat ->
             List.length (filter (in_range (lo + N.of_nat k)) rs) = 1%nat).
Proof.
  intros Hle. induction n as [|m [IH1 IH2]]; cbn [covered_count].
  - split; [lia|]. intros _ k Hk. lia.
  - pose proof (Hle (lo + N.of_nat m)) as Hm. split; [lia|].
    intros Hsum k Hk.
    destruct (Nat.eq_dec k m) as [->|Hne]; [lia|].
    apply IH2; lia.
Qed.

(** The executable test of the resolver is sound for the partition
    property. *)
Lemma exactly_partitions_sound (seg : SegmentInfo.t) (rs : list ByteRange) :
  exactly_partitions seg rs = true ->
  partitions (SegmentInfo.data_offset seg) (SegmentInfo.layers_size seg) rs.
Proof.
  unfold exactly_partitions. intros H.
  apply andb_prop in H as [H Hsum]. apply andb_prop in H as [Hin Hdis].
  apply N.eqb_eq in Hsum.
  assert (Hinside : forall r, In r rs ->
            SegmentInfo.data_offset seg <= range_start r /\
            range_end r
              <= SegmentInfo.data_offset seg + SegmentInfo.layers_size seg).
  { intros r Hr. rewrite forallb_forall in Hin. specialize (Hin r Hr).
    unfold inside_segment in Hin. apply andb_prop in Hin as [H1 H2].
    apply N.leb_le in H1. apply N.leb_le in H2. split; assumption. }
  split; [exact Hinside|]. split; [|exact Hsum].
  intros x Hx.
  set (lo := SegmentInfo.data_offset seg) in *.
  set (n := N.to_nat (SegmentInfo.layers_size seg)).
  assert (Hcount : covered_count rs lo n = n).
  { unfold n. rewrite <- Hsum at 2. apply covered_count_all.
    intros r Hr. destruct (Hinside r Hr). unfold n. lia. }
  destruct (covered_count_full rs lo n
              (fun y => disjoint_count_le_1 rs y Hdis)) as [_ Hall].
  specialize (Hall Hcount (N.to_nat (x - lo))).
  replace (lo + N.of_nat (N.to_nat (x - lo))) with x in Hall by lia.
  apply Hall. unfold n. lia.
Qed.

(** ** The resolver *)

Section ResolverProperties.

Variable block_count : nat -> N.

Lemma take_run_app (seg : SegmentInfo.t) (ls : list LayerInfo.t) :
  forall total run rem,
    take_run seg total ls = (run, rem) -> ls = (run ++ rem)%list.
Proof.
  induction ls as [|l rest IH]; intros total run rem; cbn [take_run].
  - intros [= <- <-]. reflexivity.
  - destruct (SegmentInfo.layers_size seg <? total + LayerInfo.layer_start l).
    + intros [= <- <-]. reflexivity.
    + destruct (take_run seg (total + LayerInfo.layer_start l) rest)
        as [run' rem'] eqn:E.
      intros [= <- <-]. cbn [app]. f_equal. apply (IH _ _ _ E).
Qed.

Lemma resolve_all_indices (seg : SegmentInfo.t) (run : list LayerInfo.t) :
  forall idx,
    map layer_index (resolve_all block_count seg idx run)
    = seq idx (List.length run).
Proof.
  induction run as [|l rest IH]; intros idx;
    cbn [resolve_all map List.length seq layer_index resolve_layer].
  - reflexivity.
  - now rewrite IH.
Qed.

Lemma resolve_all_from (t : ParsedTables) (e : SegmentEntry)
                       (run : list LayerInfo.t) :
  forall pre rem,
    layers t = (pre ++ run ++ rem)%list ->
    Forall (resolved_from block_count t e)
           (resolve_all block_count (entry_segment e) (List.length pre) run).
Proof.
  induction run as [|l rest IH]; intros pre rem Ht; cbn [resolve_all].
  - constructor.
  - constructor.
    + exists l. cbn [layer_index byte_range range_start range_length
                     interleave_unit resolved_block_size
                     resolved_block_size_pad resolve_layer].
      repeat split. rewrite Ht, nth_error_app2 by lia.
      now rewrite Nat.sub_diag.
    + replace (S (List.length pre)) with (List.length (pre ++ [l]))
        by (rewrite length_app; cbn; lia).
      apply (IH (pre ++ [l])%list rem).
      rewrite Ht, <- app_assoc. reflexivity.
Qed.

(** The resolver has one way to fail. *)
Lemma resolve_segment_error (dsize : N) (seg : SegmentInfo.t) (idx : nat)
                            (ls : list LayerInfo.t) (err : Error) :
  resolve_segment block_count dsize seg idx ls = Err err ->
  err = GeometryOverflow.
Proof.
  unfold resolve_segment. destruct (take_run seg 0 ls) as [run rem].
  destruct (negb (forallb _ _)); [congruence|].
  destruct (negb (exactly_partitions _ _)); congruence.
Qed.

Lemma resolve_segments_error (dsize : N) (segs : list SegmentInfo.t) :
  forall idx ls err,
    resolve_segments block_count dsize segs idx ls = Err err ->
    err = GeometryOverflow.
Proof.
  induction segs as [|seg segs' IH]; intros idx ls err;
    cbn [resolve_segments].
  - destruct ls; congruence.
  - destruct (resolve_segment block_count dsize seg idx ls)
      as [[[e i'] rem]|e'] eqn:E; cbn [bind].
    + destruct (resolve_segments block_count dsize segs' i' rem)
        as [es|e''] eqn:E'; cbn [bind]; [congruence|].
      intros [= <-]. apply (IH _ _ _ E').
    + intros [= <-]. apply (resolve_segment_error _ _ _ _ _ E).
Qed.

(** What the resolver returns for one segment; [pre] are the layer
    records consumed by the segments before. *)
Lemma resolve_segment_ok (dsize : N) (seg : SegmentInfo.t) (idx : nat)
                         (ls : list LayerInfo.t) (e : SegmentEntry)
                         (idx' : nat) (rem : list LayerInfo.t)
                         (t : ParsedTables) (pre : list LayerInfo.t) :
  layers t = (pre ++ ls)%list ->
  List.length pre = idx ->
  resolve_segment block_count dsize seg idx ls = Ok (e, idx', rem) ->
  exists run,
    ls = (run ++ rem)%list /\
    idx' = (idx + List.length run)%nat /\
    entry_segment e = seg /\
    map layer_index (entry_layers e) = seq idx (List.length run) /\
    Forall (resolved_from block_count t e) (entry_layers e) /\
    valid_entry dsize e.
Proof.
  intros Ht Hpre. unfold resolve_segment.
  destruct (take_run seg 0 ls) as [run rem'] eqn:Erun.
  destruct (forallb (within_chunk dsize)
              (map byte_range (resolve_all block_count seg idx run)))
    eqn:Ewithin; cbn [negb]; [|discriminate].
  destruct (exactly_partitions seg
              (map byte_range (resolve_all block_count seg idx run)))
    eqn:Epart; cbn [negb]; [|discriminate].
  intros [= <- <- <-]. apply take_run_app in Erun.
  exists run. cbn [entry_segment entry_layers].
  split; [exact Erun|]. split; [reflexivity|]. split; [reflexivity|].
  split; [apply resolve_all_indices|]. split.
  - subst idx.
    apply (resolve_all_from t
             {| entry_segment := seg;
                entry_layers :=
                  resolve_all block_count seg (List.length pre) run |}
             run pre rem').
    now rewrite Ht, Erun.
  - split; cbn [entry_segment entry_layers].
    + apply exactly_partitions_sound. exact Epart.
    + rewrite forallb_forall in Ewithin. apply Forall_forall. intros r Hr.
      specialize (Ewithin (byte_range r) (in_map byte_range _ _ Hr)).
      unfold within_chunk in Ewithin. apply N.leb_le in Ewithin.
      split; [exact Ewithin|]. intros x Hx. unfold in_range in Hx.
      apply andb_prop in Hx as [_ Hx]. apply N.ltb_lt in Hx. lia.
Qed.

Lemma resolve_segments_ok (t : ParsedTables) (dsize : N)
                          (segs : list SegmentInfo.t) :
  forall idx ls es pre,
    layers t = (pre ++ ls)%list ->
    List.length pre = idx ->
    resolve_segments block_count dsize segs idx ls = Ok es ->
    map entry_segment es = segs /\
    map layer_index (flat_map entry_layers es)
      = seq idx (List.length ls) /\
    Forall (fun e => Forall (resolved_from block_count t e)
                            (entry_layers e)) es /\
    Forall (valid_entry dsize) es.
Proof.
  induction segs as [|seg segs' IH]; intros idx ls es pre Ht Hpre;
    cbn [resolve_segments].
  - destruct ls; [|discriminate]. intros [= <-]. repeat split; constructor.
  - destruct (resolve_segment block_count dsize seg idx ls)
      as [[[e i'] rem]|e'] eqn:Eseg; cbn [bind]; [|discriminate].
    destruct (resolve_segments block_count dsize segs' i' rem)
      as [es'|e''] eqn:Erec; cbn [bind]; [|discriminate].
    intros [= <-].
    destruct (resolve_segment_ok _ _ _ _ _ _ _ t pre Ht Hpre Eseg)
      as (run & Hls & Hidx & Hseg & Hseq & Hfrom & Hval).
    assert (Ht' : layers t = ((pre ++ run) ++ rem)%list)
      by (rewrite <- app_assoc, <- Hls; exact Ht).
    assert (Hpre' : List.length (pre ++ run) = i')
      by (rewrite length_app; lia).
    destruct (IH _ _ _ _ Ht' Hpre' Erec) as (Hsegs & Hseq' & Hfrom' & Hval').
    repeat split.
    + cbn [map]. now rewrite Hseg, Hsegs.
    + cbn [flat_map]. rewrite map_app, Hseq, Hseq', Hls.
      rewrite length_app, seq_app, Hidx. reflexivity.
    + constructor; assumption.
    + constructor; assumption.
Qed.

(** A resolved index is a valid index of the tables. *)
Lemma resolve_geometry_valid (t : ParsedTables) (idx : GeometryIndex) :
  resolve_geometry block_count t = Ok idx -> valid_index block_count t idx.
Proof.
  intros H.
  destruct (resolve_segments_ok t _ _ _ _ _ [] eq_refl eq_refl H)
    as (H1 & H2 & H3 & H4).
  repeat split; assumption.
Qed.

Lemma resolve_geometry_error (t : ParsedTables) (e : Error) :
  resolve_geometry block_count t = Err e -> e = GeometryOverflow.
Proof. apply resolve_segments_error. Qed.

End ResolverProperties.

(** The resolver on [example_tables]; on a data chunk one byte too short;
    on a layer that leaves a gap; on the layers in the other table order;
    and on [example_two_segments], where the first layer of the second
    segment, at layer_start 0, does not take the running total of the
    first segment past its layers_size, so that it is taken into the
    first run, which then no longer partitions its segment. *)
Example resolve_example :
  resolve_geometry (example_block_count [] example_tables) example_tables
  = Ok example_index.
Proof. reflexivity. Qed.

Example resolve_rejects_short_data :
  resolve_geometry (fun _ => 2)
    {| segments := segments example_tables;
       layers := layers example_tables;
       data_chunk_size := 63 |} = Err GeometryOverflow.
Proof. reflexivity. Qed.

Example resolve_rejects_gap :
  resolve_geometry (fun _ => 2)
    {| segments := segments example_tables;
       layers :=
         [ LayerInfo.mk 0 0 0 0 16 0 8 0 0 16 0;
           LayerInfo.mk 0 0 0 0 8 0 8 0 0 8 30 ];
       data_chunk_size := 64 |} = Err GeometryOverflow.
Proof. reflexivity. Qed.

Example resolve_accepts_any_table_order :
  resolve_geometry (fun _ => 2)
    {| segments := segments example_tables;
       layers := rev (layers example_tables);
       data_chunk_size := 64 |}
  = Ok [ {| entry_segment := SegmentInfo.mk 0 0 0 0 0 0 48 16;
            entry_layers :=
              [ {| layer_index := 0;
                   byte_range := {| range_start := 48; range_length := 16 |};
                   interleave_unit := 8;
                   resolved_block_size := 8;
                   resolved_block_size_pad := 8 |};
                {| layer_index := 1;
                   byte_range := {| range_start := 16; range_length := 32 |};
                   interleave_unit := 8;
                   resolved_block_size := 16;
                   resolved_block_size_pad := 16 |} ] |} ].
Proof. reflexivity. Qed.

Example resolve_two_segments :
  resolve_geometry (fun _ => 2) example_two_segments = Err GeometryOverflow.
Proof. reflexivity. Qed.

(** ** The decoder *)

Section DecodeProperties.

Variable block_count_of : list byte -> ParsedTables -> nat -> N.
Variable DecodedContainer : Type.
Variable parse_tables : list byte -> Result ParsedTables.
Variable extract :
  list byte -> ParsedTables -> GeometryIndex -> Result DecodedContainer.

(** C7.  Whenever [decode] accepts a buffer, the index it resolved is
    valid for the parsed tables: every resolved layer is the layer record
    at its index, its absolute range starting at segment data_offset +
    layer_start and block count x block_size_pad bytes long; the ranges
    of each segment partition the segment's [layers_size] bytes (every
    byte of the region in exactly one range, no gap, no overlap, lengths
    summing to layers_size); and every range lies within
    [0, data_chunk_size).  When the tables parse and no such index is
    resolved, [decode] fails with [GeometryOverflow]. *)
Theorem decode_geometry_partition (buf : list byte) :
  (forall out,
      decode block_count_of DecodedContainer parse_tables extract buf
        = Ok out ->
      exists t idx,
        parse_tables buf = Ok t /\
        resolve_geometry (block_count_of buf t) t = Ok idx /\
        extract buf t idx = Ok out /\
        valid_index (block_count_of buf t) t idx) /\
  (forall t,
      parse_tables buf = Ok t ->
      (exists idx,
          resolve_geometry (block_count_of buf t) t = Ok idx /\
          valid_index (block_count_of buf t) t idx /\
          decode block_count_of DecodedContainer parse_tables extract buf
            = extract buf t idx) \/
      decode block_count_of DecodedContainer parse_tables extract buf
        = Err GeometryOverflow).
Proof.
  unfold decode. split.
  - intros out. destruct (parse_tables buf) as [t|e]; cbn [bind];
      [|discriminate].
    destruct (resolve_geometry (block_count_of buf t) t) as [idx|e] eqn:E;
      cbn [bind]; [|discriminate].
    intros H. exists t, idx. repeat split; try assumption;
      apply (resolve_geometry_valid _ _ _ E).
  - intros t Ht. rewrite Ht. cbn [bind].
    destruct (resolve_geometry (block_count_of buf t) t) as [idx|e] eqn:E;
      cbn [bind].
    + left. exists idx. repeat split;
        apply (resolve_geometry_valid _ _ _ E).
    + right. now rewrite (resolve_geometry_error _ _ _ E).
Qed.

End DecodeProperties.

Lemma decode_geometry_partition_witness :
  decode example_block_count GeometryIndex example_parse example_extract []
    = Ok example_index /\
  exists t idx,
    example_parse [] = Ok t /\
    resolve_geometry (example_block_count [] t) t = Ok idx /\
    example_extract [] t idx = Ok example_index /\
    valid_index (example_block_count [] t) t idx.
Proof.
  split; [reflexivity|].
  apply (proj1 (decode_geometry_partition example_block_count GeometryIndex
                  example_parse example_extract []) example_index).
  reflexivity.
Defined.

(** * Further properties of the declarations *)

(** ** The packing pragma removes all padding *)

Lemma alignof_pos (t : ctype) : 1 <= alignof t.
Proof. induction t; cbn [alignof]; lia. Qed.

Lemma member_align_packed (t : ctype) : member_align pack_value t = 1.
Proof.
  unfold member_align, pack_value. pose proof (alignof_pos t). lia.
Qed.

Lemma align_up_1 (off : N) : align_up off 1 = off.
Proof.
  unfold align_up. rewrite N.div_1_r, N.mul_1_r. lia.
Qed.

Lemma layout_from_packed (ms : list member) :
  forall off, layout_from pack_value off ms = packed_layout off ms.
Proof.
  induction ms as [|m rest IH]; intros off; cbn [layout_from packed_layout].
  - reflexivity.
  - rewrite member_align_packed, align_up_1, IH. reflexivity.
Qed.

Lemma end_from_packed (ms : list member) :
  forall off, end_from pack_value off ms = off + members_size ms.
Proof.
  induction ms as [|m rest IH]; intros off;
    cbn [end_from members_size fold_right].
  - lia.
  - rewrite member_align_packed, align_up_1, IH. unfold members_size. lia.
Qed.

Lemma struct_align_packed (ms : list member) :
  struct_align pack_value ms = 1.
Proof.
  induction ms as [|m rest IH]; cbn [struct_align fold_right].
  - reflexivity.
  - fold (struct_align pack_value rest).
    rewrite IH, member_align_packed. reflexivity.
Qed.

Lemma layout_is_packed (s : struct_decl) :
  layout s = packed_layout 0 (members s).
Proof. apply layout_from_packed. Qed.

Lemma sizeof_is_members_size (s : struct_decl) :
  sizeof_struct s = members_size (members s).
Proof.
  unfold sizeof_struct, sizeof_with.
  rewrite struct_align_packed, align_up_1, end_from_packed. lia.
Qed.

(** X1.  Under [#pragma pack(push,1)] a structure has no padding, whatever
    its members: every member starts where the previous one ends and the
    size of the structure is the sum of the sizes of its members. *)
Theorem packed_struct_has_no_padding (s : struct_decl) :
  layout s = packed_layout 0 (members s) /\
  sizeof_struct s = members_size (members s).
Proof.
  split; [apply layout_is_packed | apply sizeof_is_members_size].
Qed.

Lemma packed_layout_inside (ms : list member) :
  forall off m o,
    In (m, o) (packed_layout off ms) ->
    off <= o /\ o + sizeof (mtype m) <= off + members_size ms.
Proof.
  induction ms as [|a rest IH]; intros off m o Hin;
    cbn [packed_layout members_size fold_right] in *.
  - destruct Hin.
  - fold (members_size rest). destruct Hin as [[= <- <-]|Hin].
    + lia.
    + apply IH in Hin. lia.
Qed.

Lemma find_member_In (name : string) (l : list (member * N)) :
  forall p, find_member name l = Some p -> In p l /\ mname (fst p) = name.
Proof.
  induction l as [|[m o] rest IH]; intros p; cbn [find_member].
  - discriminate.
  - destruct (String.eqb (mname m) name) eqn:E.
    + intros [= <-]. apply String.eqb_eq in E. split; [now left | exact E].
    + intros H. apply IH in H as [H1 H2]. split; [now right | exact H2].
Qed.

Lemma find_member_inside (s : struct_decl) (name : string)
                         (m : member) (off : N) :
  find_member name (layout s) = Some (m, off) ->
  off + sizeof (mtype m) <= sizeof_struct s.
Proof.
  intros H. apply find_member_In in H as [Hin _].
  rewrite layout_is_packed in Hin. apply packed_layout_inside in Hin.
  rewrite sizeof_is_members_size. lia.
Qed.

(** X2.  Every member of a structure lies inside the structure: its
    offset plus its size is at most [sizeof] of the structure, so a buffer
    of [sizeof] bytes holds every member. *)
Theorem member_inside_struct (s : struct_decl) (name : string)
                             (m : member) (off : N) :
  find_member name (layout s) = Some (m, off) ->
  mname m = name /\ off + sizeof (mtype m) <= sizeof_struct s.
Proof.
  intros H. split.
  - apply find_member_In in H as [_ Hname]. exact Hname.
  - apply (find_member_inside _ _ _ _ H).
Qed.

Lemma member_inside_struct_witness :
  find_member "hist" (layout RWS_DSPInfo)
    = Some (Member (array int16_t 16) "hist", 60) /\
  mname (Member (array int16_t 16) "hist") = "hist" /\
  60 + sizeof (array int16_t 16) <= sizeof_struct RWS_DSPInfo.
Proof.
  split; [reflexivity|].
  apply (member_inside_struct RWS_DSPInfo "hist"
           (Member (array int16_t 16) "hist") 60).
  reflexivity.
Defined.

Lemma packed_layout_nth_ordered (ms : list member) :
  forall off i j m1 o1 m2 o2,
    (i < j)%nat ->
    nth_error (packed_layout off ms) i = Some (m1, o1) ->
    nth_error (packed_layout off ms) j = Some (m2, o2) ->
    o1 + sizeof (mtype m1) <= o2.
Proof.
  induction ms as [|a rest IH]; intros off i j m1 o1 m2 o2 Hlt Hi Hj.
  - destruct i; discriminate.
  - destruct j as [|j]; [lia|]. cbn [packed_layout nth_error] in Hj.
    destruct i as [|i]; cbn [packed_layout nth_error] in Hi.
    + injection Hi as <- <-.
      apply nth_error_In, packed_layout_inside in Hj. lia.
    + apply (IH _ i j m1 o1 m2 o2 ltac:(lia) Hi Hj).
Qed.

(** X3.  The members of a structure do not overlap: a member declared
    earlier ends at or before the offset of any member declared later. *)
Theorem members_do_not_overlap (s : struct_decl) (i j : nat)
                               (m1 m2 : member) (o1 o2 : N) :
  (i < j)%nat ->
  nth_error (layout s) i = Some (m1, o1) ->
  nth_error (layout s) j = Some (m2, o2) ->
  o1 + sizeof (mtype m1) <= o2.
Proof.
  rewrite layout_is_packed. apply packed_layout_nth_ordered.
Qed.

Lemma members_do_not_overlap_witness :
  (6 < 7)%nat /\
  nth_error (layout RWS_LayerInfo) 6 = Some (Member uint16_t "interleave", 24) /\
  nth_error (layout RWS_LayerInfo) 7 = Some (Member uint16_t "frame_size", 26) /\
  24 + sizeof uint16_t <= 26.
Proof.
  split; [lia|]. split; [reflexivity|]. split; [reflexivity|].
  apply (members_do_not_overlap RWS_LayerInfo 6 7
           (Member uint16_t "interleave") (Member uint16_t "frame_size")
           24 26); [lia | reflexivity | reflexivity].
Defined.

(** ** The members tile the record *)

Lemma firstn_plus {A : Type} (a b : nat) (l : list A) :
  firstn (a + b) l = (firstn a l ++ firstn b (skipn a l))%list.
Proof.
  revert l; induction a as [|a IH]; intros l; cbn.
  - reflexivity.
  - destruct l as [|x l]; cbn.
    + now rewrite firstn_nil.
    + now rewrite IH.
Qed.

Lemma packed_slices_concat (buf : list byte) (ms : list member) :
  forall off,
    List.concat (map (fun p => firstn (N.to_nat (sizeof (mtype (fst p))))
                                 (skipn (N.to_nat (snd p)) buf))
                (packed_layout off ms))
    = firstn (N.to_nat (members_size ms)) (skipn (N.to_nat off) buf).
Proof.
  induction ms as [|m rest IH]; intros off;
    cbn [packed_layout map List.concat members_size fold_right fst snd].
  - reflexivity.
  - fold (members_size rest).
    rewrite IH.
    rewrite (N2Nat.inj_add (sizeof (mtype m)) (members_size rest)).
    rewrite firstn_plus, skipn_skipn.
    rewrite (N2Nat.inj_add off (sizeof (mtype m))).
    rewrite (Nat.add_comm (N.to_nat off)). reflexivity.
Qed.

Lemma member_slices_concat (s : struct_decl) (buf : list byte) :
  List.concat (member_slices s buf)
    = firstn (N.to_nat (sizeof_struct s)) buf.
Proof.
  unfold member_slices. rewrite layout_is_packed, sizeof_is_members_size.
  apply (packed_slices_concat buf (members s) 0).
Qed.

(** X4.  The members of a structure tile the record it overlays: the
    bytes of the members, taken in declaration order, are exactly the
    first [sizeof] bytes of the buffer, with no byte skipped and none read
    twice; on a buffer that holds the record they add up to [sizeof]
    bytes. *)
Theorem members_tile_record (s : struct_decl) (buf : list byte) :
  List.concat (member_slices s buf)
    = firstn (N.to_nat (sizeof_struct s)) buf /\
  (sizeof_struct s <= buffer_size buf ->
   buffer_size (List.concat (member_slices s buf)) = sizeof_struct s).
Proof.
  split; [apply member_slices_concat|].
  intros H. rewrite member_slices_concat. unfold buffer_size in *.
  rewrite length_firstn. lia.
Qed.

(** ** The pragma and the names of the members *)

Lemma layout_pack_independent_witness :
  In 4 [1; 2; 4; 8] /\ In RWS_LayerConfig all_structs /\
  layout_with 4 RWS_LayerConfig = layout RWS_LayerConfig /\
  sizeof_with 4 RWS_LayerConfig = sizeof_struct RWS_LayerConfig.
Proof.
  assert (Hp : In 4 [1; 2; 4; 8]) by (cbn; tauto).
  assert (Hs : In RWS_LayerConfig all_structs) by (cbn; tauto).
  split; [exact Hp|]. split; [exact Hs|].
  exact (layout_pack_independent 4 RWS_LayerConfig Hp Hs).
Defined.

(** X6.  Where the name of a member ends in two hexadecimal digits, the
    digits are the offset of the member, in every structure of the file;
    the one exception is [unknown_30] of [RWS_HeaderBase], which lies at
    0x2C, four bytes below the offset in its name. *)
Theorem offset_names_match_layout :
  forall s name off named,
    In s all_structs ->
    In (name, off, named) (offset_named_members s) ->
    off = named \/
    (s = RWS_HeaderBase /\ name = "unknown_30" /\ off = 0x2C /\ named = 0x30).
Proof.
  intros s name off named Hs Hin. cbn [In all_structs] in Hs.
  repeat (destruct Hs as [<-|Hs]; [|]); try contradiction;
    cbv in Hin;
    repeat (destruct Hin as [[= <- <- <-]|Hin]; [|]); try contradiction;
    solve [left; reflexivity | right; repeat split; reflexivity].
Qed.

Lemma offset_names_match_layout_witness :
  In RWS_LayerConfig all_structs /\
  In ("unk_0F", 15, 15) (offset_named_members RWS_LayerConfig) /\
  (15 = 15 \/
   (RWS_LayerConfig = RWS_HeaderBase /\ "unk_0F" = "unknown_30" /\
    15 = 0x2C /\ 15 = 0x30)).
Proof.
  assert (Hs : In RWS_LayerConfig all_structs) by (cbn; tauto).
  assert (Hin : In ("unk_0F", 15, 15) (offset_named_members RWS_LayerConfig))
    by (cbv; tauto).
  split; [exact Hs|]. split; [exact Hin|].
  exact (offset_names_match_layout RWS_LayerConfig "unk_0F" 15 15 Hs Hin).
Defined.

(** ** Reading members: bounds *)

Lemma slice_firstn (off len : N) (n : nat) (buf : list byte) :
  off + len <= N.of_nat n ->
  slice off len (firstn n buf) = slice off len buf.
Proof.
  intros H. unfold slice, buffer_size. rewrite length_firstn.
  destruct (N.leb_spec (off + len) (N.of_nat (List.length buf))) as [Hle|Hgt].
  - replace (off + len <=? N.of_nat (Nat.min n (List.length buf))) with true
      by (symmetry; apply N.leb_le; lia).
    f_equal. rewrite skipn_firstn_comm, firstn_firstn. f_equal. lia.
  - replace (off + len <=? N.of_nat (Nat.min n (List.length buf))) with false
      by (symmetry; apply N.leb_gt; lia).
    reflexivity.
Qed.

Lemma read_uint_prefix (o : byte_order) (s : struct_decl) (name : string)
                       (buf : list byte) :
  read_uint o s name (firstn (N.to_nat (sizeof_struct s)) buf)
    = read_uint o s name buf.
Proof.
  unfold read_uint.
  destruct (find_member name (layout s)) as [[m off]|] eqn:E; [|reflexivity].
  destruct (is_unsigned_scalar (mtype m)); [|reflexivity].
  apply find_member_inside in E. rewrite slice_firstn by lia. reflexivity.
Qed.

Lemma read_uint_covered (o : byte_order) (s : struct_decl) (name : string)
                        (buf : list byte) (m : member) (off : N) :
  find_member name (layout s) = Some (m, off) ->
  is_unsigned_scalar (mtype m) = true ->
  off + sizeof (mtype m) <= buffer_size buf ->
  exists v, read_uint o s name buf = Some v.
Proof.
  intros Hf Hu Hc. unfold read_uint. rewrite Hf, Hu.
  destruct (slice_some _ _ _ Hc) as [bs ->]. cbn. eauto.
Qed.

(** X7.  A member read from a record cannot overflow its declared type:
    the value of a [uint8_t], [uint16_t] or [uint32_t] member is below
    2^8, 2^16 or 2^32, in either byte order, and only members of these
    types are read as unsigned scalars. *)
Theorem member_value_in_type_range (o : byte_order) (s : struct_decl)
                                   (name : string) (buf : list byte) (v : N) :
  read_uint o s name buf = Some v ->
  exists t, typeof s name = Some t /\
            In t [uint8_t; uint16_t; uint32_t] /\
            v < 2 ^ (8 * sizeof t) /\ v < 2 ^ 32.
Proof.
  intros H. destruct (read_uint_bound _ _ _ _ _ H) as (t & Ht & Hb).
  exists t. split; [exact Ht|].
  unfold read_uint, typeof in *.
  destruct (find_member name (layout s)) as [[m off]|]; [|discriminate].
  cbn [option_map fst] in Ht. injection Ht as <-.
  destruct (mtype m); try discriminate; cbn [sizeof] in *;
    (split; [cbn; tauto|]); (split; [exact Hb|]);
    apply (N.lt_le_trans _ _ _ Hb); apply N.leb_le; reflexivity.
Qed.

Lemma member_value_in_type_range_witness :
  read_uint BigEndian RWS_LayerConfig "channels" (repeat xff 44) = Some 255 /\
  exists t, typeof RWS_LayerConfig "channels" = Some t /\
            In t [uint8_t; uint16_t; uint32_t] /\
            255 < 2 ^ (8 * sizeof t) /\ 255 < 2 ^ 32.
Proof.
  split; [reflexivity|].
  apply (member_value_in_type_range BigEndian RWS_LayerConfig "channels"
           (repeat xff 44) 255).
  reflexivity.
Defined.



(** ** Whole records: complete buffers, trailing bytes, no loss *)

Ltac unfold_of_bytes :=
  unfold SegmentInfo.of_bytes, LayerInfo.of_bytes; cbv beta zeta.

Ltac eval_member_end :=
  match goal with
  | |- ?a <= _ => let a' := eval vm_compute in a in change a with a'
  | |- _ < ?a => let a' := eval vm_compute in a in change a with a'
  end.

Ltac read_covered o s name buf :=
  let E := fresh "E" in
  assert (E : exists v, read_uint o s name buf = Some v)
    by (apply (read_uint_covered o s name buf _ _ eq_refl eq_refl);
        eval_member_end; lia);
  destruct E as [? ->].

(** X9.  A buffer that holds a whole segment record (32 bytes) or a whole
    layer geometry record (40 bytes) reads as a record, and the fields of
    the record are the members at their declared offsets. *)
Theorem records_read_in_bounds (o : byte_order) (buf : list byte) :
  (sizeof_struct RWS_SegmentInfo <= buffer_size buf ->
   exists r,
     SegmentInfo.of_bytes o buf = Some r /\
     read_uint o RWS_SegmentInfo "layers_size" buf
       = Some (SegmentInfo.layers_size r) /\
     read_uint o RWS_SegmentInfo "data_offset" buf
       = Some (SegmentInfo.data_offset r)) /\
  (sizeof_struct RWS_LayerInfo <= buffer_size buf ->
   exists r,
     LayerInfo.of_bytes o buf = Some r /\
     read_uint o RWS_LayerInfo "frame_hint" buf
       = Some (LayerInfo.frame_hint r) /\
     read_uint o RWS_LayerInfo "block_size_pad" buf
       = Some (LayerInfo.block_size_pad r) /\
     read_uint o RWS_LayerInfo "interleave" buf
       = Some (LayerInfo.interleave r) /\
     read_uint o RWS_LayerInfo "frame_size" buf
       = Some (LayerInfo.frame_size r) /\
     read_uint o RWS_LayerInfo "block_size" buf
       = Some (LayerInfo.block_size r) /\
     read_uint o RWS_LayerInfo "layer_start" buf
       = Some (LayerInfo.layer_start r)).
Proof.
  split.
  - change (sizeof_struct RWS_SegmentInfo) with 32. intros Hc.
    unfold_of_bytes.
    read_covered o RWS_SegmentInfo "unk_00" buf.
    read_covered o RWS_SegmentInfo "unk_04" buf.
    read_covered o RWS_SegmentInfo "unk_08" buf.
    read_covered o RWS_SegmentInfo "unk_0C" buf.
    read_covered o RWS_SegmentInfo "unk_10" buf.
    read_covered o RWS_SegmentInfo "unk_14" buf.
    read_covered o RWS_SegmentInfo "layers_size" buf.
    read_covered o RWS_SegmentInfo "data_offset" buf.
    eexists. repeat split; reflexivity.
  - change (sizeof_struct RWS_LayerInfo) with 40. intros Hc.
    unfold_of_bytes.
    read_covered o RWS_LayerInfo "unk_00" buf.
    read_covered o RWS_LayerInfo "unk_04" buf.
    read_covered o RWS_LayerInfo "zero_08" buf.
    read_covered o RWS_LayerInfo "frame_hint" buf.
    read_covered o RWS_LayerInfo "block_size_pad" buf.
    read_covered o RWS_LayerInfo "unk_14" buf.
    read_covered o RWS_LayerInfo "interleave" buf.
    read_covered o RWS_LayerInfo "frame_size" buf.
    read_covered o RWS_LayerInfo "unk_1C" buf.
    read_covered o RWS_LayerInfo "block_size" buf.
    read_covered o RWS_LayerInfo "layer_start" buf.
    eexists. repeat split; reflexivity.
Qed.

Lemma records_read_in_bounds_witness :
  sizeof_struct RWS_SegmentInfo <= buffer_size (repeat x01 32) /\
  exists r,
    SegmentInfo.of_bytes BigEndian (repeat x01 32) = Some r /\
    read_uint BigEndian RWS_SegmentInfo "layers_size" (repeat x01 32)
      = Some (SegmentInfo.layers_size r) /\
    read_uint BigEndian RWS_SegmentInfo "data_offset" (repeat x01 32)
      = Some (SegmentInfo.data_offset r).
Proof.
  assert (Hc : sizeof_struct RWS_SegmentInfo <= buffer_size (repeat x01 32))
    by (apply N.leb_le; reflexivity).
  split; [exact Hc|].
  exact (proj1 (records_read_in_bounds BigEndian (repeat x01 32)) Hc).
Defined.

(** X10.  Reading depends on the bytes of the record only: any member,
    and so a whole segment or layer record, reads the same from a buffer
    and from its first [sizeof] bytes, whatever follows the record. *)
Theorem records_ignore_trailing_bytes (o : byte_order) (buf : list byte) :
  (forall s name,
      read_uint o s name (firstn (N.to_nat (sizeof_struct s)) buf)
        = read_uint o s name buf) /\
  SegmentInfo.of_bytes o
      (firstn (N.to_nat (sizeof_struct RWS_SegmentInfo)) buf)
    = SegmentInfo.of_bytes o buf /\
  LayerInfo.of_bytes o (firstn (N.to_nat (sizeof_struct RWS_LayerInfo)) buf)
    = LayerInfo.of_bytes o buf.
Proof.
  split; [intros; apply read_uint_prefix|].
  split; unfold_of_bytes; rewrite !read_uint_prefix; reflexivity.
Qed.

Lemma to_N_inj (x y : byte) : Byte.to_N x = Byte.to_N y -> x = y.
Proof.
  intros H. pose proof (Byte.of_to_N x) as Hx.
  rewrite H, Byte.of_to_N in Hx. congruence.
Qed.

Lemma le_value_inj (a : list byte) :
  forall b, List.length a = List.length b ->
            le_value a = le_value b -> a = b.
Proof.
  induction a as [|x a IH]; intros [|y b] Hlen Hv; try discriminate.
  - reflexivity.
  - cbn [le_value] in Hv. cbn [List.length] in Hlen.
    pose proof (Byte.to_N_bounded x). pose proof (Byte.to_N_bounded y).
    assert (Hxy : Byte.to_N x = Byte.to_N y) by lia.
    assert (Hab : le_value a = le_value b) by lia.
    f_equal; [apply to_N_inj; exact Hxy | apply IH; [lia | exact Hab]].
Qed.

Lemma uint_value_inj (o : byte_order) (a b : list byte) :
  List.length a = List.length b ->
  uint_value o a = uint_value o b -> a = b.
Proof.
  destruct o; cbn [uint_value]; intros Hlen Hv.
  - apply (le_value_inj _ _ Hlen Hv).
  - apply le_value_inj in Hv; [|now rewrite !length_rev].
    rewrite <- (rev_involutive a), <- (rev_involutive b). now rewrite Hv.
Qed.

Lemma read_uint_same_bytes (o : byte_order) (s : struct_decl)
                           (m : member) (off : N) (b1 b2 : list byte) (v : N) :
  find_member (mname m) (layout s) = Some (m, off) ->
  read_uint o s (mname m) b1 = Some v ->
  read_uint o s (mname m) b2 = Some v ->
  firstn (N.to_nat (sizeof (mtype m))) (skipn (N.to_nat off) b1)
    = firstn (N.to_nat (sizeof (mtype m))) (skipn (N.to_nat off) b2).
Proof.
  intros Hf. unfold read_uint. rewrite Hf.
  destruct (is_unsigned_scalar (mtype m)); [|discriminate].
  destruct (slice off (sizeof (mtype m)) b1) as [s1|] eqn:E1; [|discriminate].
  destruct (slice off (sizeof (mtype m)) b2) as [s2|] eqn:E2; [|discriminate].
  cbn [option_map]. intros [= H1] [= H2].
  pose proof (slice_length _ _ _ _ E1) as L1.
  pose proof (slice_length _ _ _ _ E2) as L2.
  assert (s1 = s2) by (apply (uint_value_inj o); [lia | congruence]).
  unfold slice in E1, E2.
  destruct (off + sizeof (mtype m) <=? buffer_size b1); [|discriminate].
  destruct (off + sizeof (mtype m) <=? buffer_size b2); [|discriminate].
  congruence.
Qed.

Lemma member_slices_ext (s : struct_decl) (b1 b2 : list byte) :
  Forall (fun p =>
            firstn (N.to_nat (sizeof (mtype (fst p))))
                   (skipn (N.to_nat (snd p)) b1)
            = firstn (N.to_nat (sizeof (mtype (fst p))))
                     (skipn (N.to_nat (snd p)) b2))
         (layout s) ->
  firstn (N.to_nat (sizeof_struct s)) b1
    = firstn (N.to_nat (sizeof_struct s)) b2.
Proof.
  intros H. rewrite <- !member_slices_concat. unfold member_slices.
  f_equal. induction H as [|p l Hp _ IH]; cbn [map]; [reflexivity|].
  now rewrite Hp, IH.
Qed.

Ltac invert_of_bytes H :=
  unfold SegmentInfo.of_bytes, LayerInfo.of_bytes in H; cbv beta zeta in H;
  repeat match type of H with
    | match ?r with Some _ => _ | None => _ end = _ =>
        let E := fresh "E" in destruct r eqn:E; [|discriminate]
    end;
  injection H; clear H; intros; subst.

Ltac eval_layout s :=
  let l := eval vm_compute in (layout s) in change (layout s) with l.

Ltac same_member_bytes o s :=
  cbv beta; cbn [fst snd];
  eapply (read_uint_same_bytes o s);
  [reflexivity | eassumption | eassumption].

(** X11.  Reading a record loses nothing: two buffers that read as the
    same segment record agree on their first 32 bytes, and two buffers
    that read as the same layer geometry record agree on their first 40
    bytes; the unknown members keep their bytes too. *)
Theorem records_keep_every_byte (o : byte_order) (b1 b2 : list byte) :
  (forall r, SegmentInfo.of_bytes o b1 = Some r ->
             SegmentInfo.of_bytes o b2 = Some r ->
             firstn 32 b1 = firstn 32 b2) /\
  (forall r, LayerInfo.of_bytes o b1 = Some r ->
             LayerInfo.of_bytes o b2 = Some r ->
             firstn 40 b1 = firstn 40 b2).
Proof.
  split; intros r H1 H2.
  - invert_of_bytes H1. invert_of_bytes H2.
    apply (member_slices_ext RWS_SegmentInfo).
    eval_layout RWS_SegmentInfo.
    repeat (apply Forall_cons; [same_member_bytes o RWS_SegmentInfo|]).
    apply Forall_nil.
  - invert_of_bytes H1. invert_of_bytes H2.
    apply (member_slices_ext RWS_LayerInfo).
    eval_layout RWS_LayerInfo.
    repeat (apply Forall_cons; [same_member_bytes o RWS_LayerInfo|]).
    apply Forall_nil.
Qed.

Lemma records_keep_every_byte_witness :
  SegmentInfo.of_bytes LittleEndian (repeat x01 32 ++ [x02])
    = Some (SegmentInfo.mk 16843009 16843009 16843009 16843009
              16843009 16843009 16843009 16843009) /\
  SegmentInfo.of_bytes LittleEndian (repeat x01 32 ++ [x03; x04])
    = Some (SegmentInfo.mk 16843009 16843009 16843009 16843009
              16843009 16843009 16843009 16843009) /\
  firstn 32 (repeat x01 32 ++ [x02])
    = firstn 32 (repeat x01 32 ++ [x03; x04]).
Proof.
  split; [reflexivity|]. split; [reflexivity|].
  apply (proj1 (records_keep_every_byte LittleEndian
                  (repeat x01 32 ++ [x02]) (repeat x01 32 ++ [x03; x04]))
           (SegmentInfo.mk 16843009 16843009 16843009 16843009
              16843009 16843009 16843009 16843009));
    reflexivity.
Defined.

(** ** File size and zero members *)

(** X12.  A file whose [file_size] is consistent holds at least the
    12-byte file header, and is shorter than 2^32 + 12 bytes, since the
    size is stored in a [uint32_t]. *)
Theorem consistent_file_length (o : byte_order) (file : list byte) :
  file_size_ok o file = true ->
  sizeof_struct RWS_FileHeader <= buffer_size file /\
  buffer_size file < 2 ^ 32 + sizeof_struct RWS_FileHeader.
Proof.
  unfold file_size_ok.
  destruct (read_uint o RWS_FileHeader "file_size" file) as [n|] eqn:E;
    [|discriminate].
  intros H. apply N.eqb_eq in H.
  destruct (read_uint_bound _ _ _ _ _ E) as (t & Ht & Hb).
  cbv in Ht. injection Ht as <-.
  change (256 ^ sizeof uint32_t) with 4294967296 in Hb.
  change (2 ^ 32) with 4294967296.
  change (sizeof_struct RWS_FileHeader) with 12.
  change FILE_SIZE_EXCLUDED with 12 in H. lia.
Qed.

Lemma consistent_file_length_witness :
  file_size_ok BigEndian
    [x00; x00; x08; x0d; x00; x00; x00; x01; x00; x00; x00; x00; xee] = true /\
  sizeof_struct RWS_FileHeader
    <= buffer_size
         [x00; x00; x08; x0d; x00; x00; x00; x01; x00; x00; x00; x00; xee] /\
  buffer_size
    [x00; x00; x08; x0d; x00; x00; x00; x01; x00; x00; x00; x00; xee]
    < 2 ^ 32 + sizeof_struct RWS_FileHeader.
Proof.
  split; [reflexivity|].
  apply (consistent_file_length BigEndian
           [x00; x00; x08; x0d; x00; x00; x00; x01; x00; x00; x00; x00; xee]).
  reflexivity.
Defined.

Lemma le_value_zero_iff (bs : list byte) :
  le_value bs = 0 <-> Forall (fun b => Byte.to_N b = 0) bs.
Proof.
  induction bs as [|b rest IH]; cbn [le_value].
  - split; [constructor | reflexivity].
  - split.
    + intros H. constructor; [lia | apply IH; lia].
    + intros H. inversion H as [|? ? Hb Hr]; subst.
      apply IH in Hr. lia.
Qed.

Lemma uint_value_zero_order (o1 o2 : byte_order) (bs : list byte) :
  (uint_value o1 bs =? 0) = (uint_value o2 bs =? 0).
Proof.
  assert (Hrev : le_value (rev bs) = 0 <-> le_value bs = 0).
  { rewrite !le_value_zero_iff. split; intros H.
    - rewrite <- (rev_involutive bs). now apply Forall_rev.
    - now apply Forall_rev. }
  destruct o1, o2; cbn [uint_value]; try reflexivity.
  - destruct (N.eqb_spec (le_value bs) 0) as [E|E];
      destruct (N.eqb_spec (le_value (rev bs)) 0) as [E'|E'];
      try reflexivity; tauto.
  - destruct (N.eqb_spec (le_value bs) 0) as [E|E];
      destruct (N.eqb_spec (le_value (rev bs)) 0) as [E'|E'];
      try reflexivity; tauto.
Qed.

(** X13.  Whether the zero-named members of a record hold zero does not
    depend on the byte order in which the record is read. *)
Theorem zero_members_hold_any_order (o1 o2 : byte_order) (s : struct_decl)
                                    (buf : list byte) :
  zero_members_hold o1 s buf = zero_members_hold o2 s buf.
Proof.
  unfold zero_members_hold.
  induction (zero_members s) as [|p l IH]; cbn [forallb]; [reflexivity|].
  rewrite IH. f_equal.
  destruct (slice (snd p) (sizeof (mtype (fst p))) buf); [|reflexivity].
  apply uint_value_zero_order.
Qed.

(** X14.  The members named for the value zero are [zero_1] at offset
    0x18 and [zero_2] at offset 0x38 of [RWS_HeaderBase] and [zero_08] at
    offset 0x08 of [RWS_LayerInfo], each a [uint32_t]; no other structure
    has such a member, and offset 0x3C of [RWS_HeaderBase] is where
    [file_uuid] starts. *)
Theorem zero_named_members_layout :
  map (fun s =>
         (sname s,
          map (fun p => (mname (fst p), mtype (fst p), snd p))
              (zero_members s)))
      all_structs =
    [ ("RWS_FileHeader", []); ("RWS_ChunkHeader", []);
      ("RWS_HeaderBase",
       [("zero_1", uint32_t, 0x18); ("zero_2", uint32_t, 0x38)]);
      ("RWS_SegmentInfo", []);
      ("RWS_LayerInfo", [("zero_08", uint32_t, 0x08)]);
      ("RWS_LayerConfig", []); ("RWS_DSPInfo", []); ("RWS_DataChunk", []) ] /\
  find (fun p => snd p =? 0x3C) (layout RWS_HeaderBase)
    = Some (Member (array uint8_t 16) "file_uuid", 0x3C).
Proof. split; reflexivity. Qed.
